(** * Zendesk ticket collation and analysis: a model of [main.py]

    The development follows the layout of the script:

    - [Strptime]: the part of [datetime.strptime] that [analyze_data]
      relies on (the two timestamp formats), after CPython's
      [Lib/_strptime.py];
    - [Aggregator]: ticket records, the statistics dictionary and
      [analyze_data];
    - [Collator]: [process_file], [write_analysis_to_excel] and
      [collate_and_analyze_json_files] over an explicit world (directory
      listing, persisted merged file, trace of log records and writes);
    - the properties of the aggregation engine and of the validation logic.

    Python dictionaries are [gmap]s, sets are [gset]s, [None] is [None]. *)

From Stdlib Require Import ZArith Ascii.
From stdpp Require Import base option list gmap fin_maps strings pretty.

#[local] Set Warnings "-clear-no-such-hyp".

(** ** datetime.strptime for the two formats of the script *)

Module Strptime.

(** The fragment of regular expressions that [TimeRE] produces for the
    directives used here.  Matching is by backtracking, leftmost alternative
    first, as in Python's [re]. *)
Inductive re : Type :=
| Eps
| Sym (p : ascii → bool)
| Cat (a b : re)
| Alt (a b : re)
| Grp (name : string) (a : re).

Definition groups : Type := list (string * list ascii).

Fixpoint rmatch {A} (r : re) (s : list ascii) (g : groups)
    (k : groups → list ascii → option A) : option A :=
  match r with
  | Eps => k g s
  | Sym p =>
      match s with
      | c :: s' => if p c then k g s' else None
      | [] => None
      end
  | Cat a b => rmatch a s g (λ g' s', rmatch b s' g' k)
  | Alt a b =>
      match rmatch a s g k with
      | Some x => Some x
      | None => rmatch b s g k
      end
  | Grp name a =>
      rmatch a s g (λ g' s', k ((name, take (length s - length s') s) :: g') s')
  end.

Definition is_digit (c : ascii) : bool :=
  let n := nat_of_ascii c in (48 <=? n)%nat && (n <=? 57)%nat.

Definition between (lo hi : ascii) (c : ascii) : bool :=
  (nat_of_ascii lo <=? nat_of_ascii c)%nat && (nat_of_ascii c <=? nat_of_ascii hi)%nat.

Definition lower (c : ascii) : ascii :=
  let n := nat_of_ascii c in
  if (65 <=? n)%nat && (n <=? 90)%nat then ascii_of_nat (n + 32) else c.

(** A literal of the format: the pattern is compiled with [IGNORECASE]. *)
Definition lit (c : ascii) : re := Sym (λ x, Ascii.eqb (lower x) (lower c)).
(** A literal inside [(?-i:...)]. *)
Definition exact (c : ascii) : re := Sym (Ascii.eqb c).
Definition d : re := Sym is_digit.
Definition rng (lo hi : ascii) : re := Sym (between lo hi).
Definition opt (a : re) : re := Alt a Eps.
Definition one_of (c1 c2 : ascii) : re := Sym (λ x, Ascii.eqb x c1 || Ascii.eqb x c2).

(** [x{1,6}], greedy. *)
Definition rep_1_6 (x : re) : re :=
  Cat x (opt (Cat x (opt (Cat x (opt (Cat x (opt (Cat x (opt x))))))))).

(** The entries of [TimeRE.__init__] for the directives of the two formats:
<<
  'd': r"(?P<d>3[0-1]|[1-2]\d|0[1-9]|[1-9]| [1-9])"
  'f': r"(?P<f>[0-9]{1,6})"
  'H': r"(?P<H>2[0-3]|[0-1]\d|\d)"
  'm': r"(?P<m>1[0-2]|0[1-9]|[1-9])"
  'M': r"(?P<M>[0-5]\d|\d)"
  'S': r"(?P<S>6[0-1]|[0-5]\d|\d)"
  'Y': r"(?P<Y>\d\d\d\d)"
  'z': r"(?P<z>[+-]\d\d:?[0-5]\d(:?[0-5]\d(\.\d{1,6})?)?|(?-i:Z))"
>> *)
Definition directive (c : ascii) : option re :=
  if Ascii.eqb c "d" then
    Some (Grp "d" (Alt (Cat (exact "3") (rng "0" "1"))
                  (Alt (Cat (rng "1" "2") d)
                  (Alt (Cat (exact "0") (rng "1" "9"))
                  (Alt (rng "1" "9")
                       (Cat (exact " ") (rng "1" "9")))))))
  else if Ascii.eqb c "f" then
    Some (Grp "f" (rep_1_6 (rng "0" "9")))
  else if Ascii.eqb c "H" then
    Some (Grp "H" (Alt (Cat (exact "2") (rng "0" "3"))
                  (Alt (Cat (rng "0" "1") d) d)))
  else if Ascii.eqb c "m" then
    Some (Grp "m" (Alt (Cat (exact "1") (rng "0" "2"))
                  (Alt (Cat (exact "0") (rng "1" "9")) (rng "1" "9"))))
  else if Ascii.eqb c "M" then
    Some (Grp "M" (Alt (Cat (rng "0" "5") d) d))
  else if Ascii.eqb c "S" then
    Some (Grp "S" (Alt (Cat (exact "6") (rng "0" "1"))
                  (Alt (Cat (rng "0" "5") d) d)))
  else if Ascii.eqb c "Y" then
    Some (Grp "Y" (Cat d (Cat d (Cat d d))))
  else if Ascii.eqb c "z" then
    Some (Grp "z"
      (Alt (Cat (one_of "+" "-") (Cat d (Cat d (Cat (opt (exact ":"))
             (Cat (rng "0" "5") (Cat d
               (opt (Cat (opt (exact ":")) (Cat (rng "0" "5") (Cat d
                  (opt (Cat (exact ".") (rep_1_6 d)))))))))))))
           (exact "Z")))
  else None.

(** [TimeRE.pattern]: directives are replaced by their expressions, every
    other character stands for itself.  A directive outside the table is the
    [KeyError] that [_strptime] turns into a [ValueError]; a trailing [%] is
    its [IndexError]. *)
Fixpoint pattern (format : list ascii) : option re :=
  match format with
  | [] => Some Eps
  | c :: rest =>
      if Ascii.eqb c "%" then
        match rest with
        | dc :: rest' =>
            r ← directive dc; r' ← pattern rest'; Some (Cat r r')
        | [] => None
        end
      else r' ← pattern rest; Some (Cat (lit c) r')
  end.

(** [int(s)] on the text of a group: leading blanks are stripped, what is
    left must be a non-empty run of digits. *)
Fixpoint digits_value (acc : Z) (s : list ascii) : option Z :=
  match s with
  | [] => Some acc
  | c :: s' =>
      if is_digit c
      then digits_value (10 * acc + (Z.of_nat (nat_of_ascii c) - 48)) s'
      else None
  end.

Fixpoint lstrip (s : list ascii) : list ascii :=
  match s with
  | c :: s' => if Ascii.eqb c " " then lstrip s' else s
  | [] => []
  end.

Definition int (s : list ascii) : option Z :=
  match lstrip s with
  | [] => None
  | s' => digits_value 0 s'
  end.

Fixpoint group (name : string) (g : groups) : option (list ascii) :=
  match g with
  | [] => None
  | (n, s) :: g' => if String.eqb n name then Some s else group name g'
  end.

Definition slice (i j : nat) (s : list ascii) : list ascii := take (j - i) (drop i s).

Definition zero : ascii := "0"%char.

(** The [%z] branch of [_strptime]: the offset in seconds and its fraction in
    microseconds. *)
Definition gmtoff_of (z0 : list ascii) : option (Z * Z) :=
  if bool_decide (z0 = ["Z"%char]) then Some (0, 0)%Z
  else
    z ← (if bool_decide (z0 !! 3%nat = Some ":"%char) then
           let z := take 3 z0 ++ drop 4 z0 in
           if (5 <? length z)%nat then
             if bool_decide (z !! 5%nat = Some ":"%char)
             then Some (take 5 z ++ drop 6 z)
             else None
           else Some z
         else Some z0);
    hours ← int (slice 1 3 z);
    minutes ← int (slice 3 5 z);
    seconds ← (match slice 5 7 z with [] => Some 0%Z | s => int s end);
    let gmtoff := (hours * 60 * 60 + minutes * 60 + seconds)%Z in
    let gmtoff_remainder := drop 8 z in
    gmtoff_fraction ←
      int (gmtoff_remainder ++ replicate (6 - length gmtoff_remainder) zero);
    if bool_decide (head z = Some "-"%char)
    then Some (- gmtoff, - gmtoff_fraction)%Z
    else Some (gmtoff, gmtoff_fraction).

Definition isleap (year : Z) : bool :=
  ((year mod 4 =? 0) && (negb (year mod 100 =? 0) || (year mod 400 =? 0)))%Z.

Definition days_in_month (year month : Z) : Z :=
  if (month =? 2)%Z then (if isleap year then 29 else 28)%Z
  else if ((month =? 4) || (month =? 6) || (month =? 9) || (month =? 11))%Z then 30%Z
  else 31%Z.

Record datetime : Type := Datetime {
  year : Z; month : Z; day : Z;
  hour : Z; minute : Z; second : Z; microsecond : Z;
  utcoffset : option (Z * Z)
}.

(** The range checks of the [date], [datetime] and [timezone] constructors;
    each of them raises [ValueError]. *)
Definition valid_date (y m dd : Z) : bool :=
  ((1 <=? y) && (y <=? 9999) && (1 <=? m) && (m <=? 12) &&
   (1 <=? dd) && (dd <=? days_in_month y m))%Z.

Definition valid_time (h mi s us : Z) : bool :=
  ((0 <=? h) && (h <=? 23) && (0 <=? mi) && (mi <=? 59) &&
   (0 <=? s) && (s <=? 59) && (0 <=? us) && (us <=? 999999))%Z.

Definition valid_offset (off : Z * Z) : bool :=
  let us := (off.1 * 1000000 + off.2)%Z in
  ((-86400000000 <? us) && (us <? 86400000000))%Z.

Definition field (name : string) (default : Z) (g : groups) : option Z :=
  match group name g with
  | Some s => int s
  | None => Some default
  end.

(** [datetime.strptime(data_string, format)]: [None] stands for the
    [ValueError] of a string that does not match, leaves data unconverted or
    names no date.  The text is taken byte by byte, so [\d] is an ASCII
    digit. *)
Definition strptime (data_string format : string) : option datetime :=
  format_regex ← pattern (String.list_ascii_of_string format);
  found ← rmatch format_regex (String.list_ascii_of_string data_string) []
             (λ g rest, Some (g, rest));
  let '(g, rest) := found in
  if negb (bool_decide (rest = [])) then None
  else
    y ← field "Y" 1900 g;
    m ← field "m" 1 g;
    dd ← field "d" 1 g;
    h ← field "H" 0 g;
    mi ← field "M" 0 g;
    s ← field "S" 0 g;
    fraction ← (match group "f" g with
                | Some f => int (f ++ replicate (6 - length f) zero)
                | None => Some 0%Z
                end);
    tz ← (match group "z" g with
          | Some z => Some <$> gmtoff_of z
          | None => Some None
          end);
    if valid_date y m dd && valid_time h mi s fraction
       && from_option valid_offset true tz
    then Some (Datetime y m dd h mi s fraction tz)
    else None.

End Strptime.

Example strptime_z :
  Strptime.year <$> Strptime.strptime "2023-05-01T10:00:00.000Z" "%Y-%m-%dT%H:%M:%S.%fZ"
  = Some 2023%Z.
Proof. vm_compute. reflexivity. Qed.

(** ** Logging *)

Inductive level : Type := INFO | WARNING | ERROR.

(** A record handed to [logging]: its level and its formatted message. *)
Definition log_record : Type := level * string.

(** ** The aggregator: [analyze_data] *)

Module Aggregator.

(** One element of a ticket's [custom_fields]: [field.get('id')] and
    [field.get('value')], [None] when the key is missing or [null]. *)
Record custom_field : Type := CustomField {
  field_id : option Z;
  field_value : option string
}.

(** A ticket record, with the keys the script reads.  [None] is a missing
    key. *)
Record ticket : Type := Ticket {
  created_at : option string;
  tags : option (list string);
  custom_fields : option (list custom_field)
}.

(** The variables of [analyze_data] that live across the loop over the
    entries, and the warnings logged so far. *)
Record locals : Type := Locals {
  created_at_year_count : gmap Z nat;
  tags_count : gmap string nat;
  program_area_count : gmap string nat;
  segment_count : gmap string nat;
  channel_count : gmap string nat;
  type_of_inquiry_count : gmap string nat;
  spam_ticket_count : nat;
  unique_tags : gset string;
  unique_program_areas : gset string;
  unique_segments : gset string;
  unique_channels : gset string;
  unique_types_of_inquiry : gset string;
  logged : list log_record
}.

(** The dictionary that [analyze_data] returns, one field per key. *)
Module Stats.
Record t : Type := Make {
  total_tickets : nat;
  created_at_year_count : gmap Z nat;
  tags_count : gmap string nat;
  program_area_count : gmap string nat;
  segment_count : gmap string nat;
  channel_count : gmap string nat;
  type_of_inquiry_count : gmap string nat;
  spam_ticket_count : nat;
  unique_tags : gset string;
  unique_program_areas : gset string;
  unique_segments : gset string;
  unique_channels : gset string;
  unique_types_of_inquiry : gset string
}.
End Stats.
Abbreviation analysis_stats := Stats.t.

(** The variables of one ticket that the loop over its custom fields
    overwrites. *)
Record resolved : Type := Resolved {
  program_area : option string;
  segment : option string;
  channel : option string;
  type_of_inquiry : option string
}.

Definition FIELD_ID_TO_NAME : gmap Z string :=
  list_to_map [
    (38954747%Z, "channel");
    (38829288%Z, "type_of_inquiry");
    (38830788%Z, "program_area");
    (1500001654502%Z, "segment")
  ].

(** [d[k] += 1] on a [defaultdict(int)]. *)
Definition incr `{Countable K} (k : K) (d : gmap K nat) : gmap K nat :=
  <[k := S (d !!! k)]> d.

(** [sum(d.values())]. *)
Definition sum_values `{Countable K} (d : gmap K nat) : nat :=
  map_fold (λ _ v acc, v + acc) 0 d.

(** Truth value of a field value: [None] and the empty string are false. *)
Definition truthy (v : option string) : bool :=
  match v with
  | Some s => negb (String.eqb s "")
  | None => false
  end.

(** The body shared by the four branches of the loop over the custom fields:
<<
    if x:
        x_count[x] += 1
        unique_xs.add(x)
>> *)
Definition tally (x : option string) (count : gmap string nat) (unique : gset string)
    : gmap string nat * gset string :=
  match x with
  | Some v => if truthy x then (incr v count, {[v]} ∪ unique) else (count, unique)
  | None => (count, unique)
  end.

Definition set_created_at_year_count (c : gmap Z nat) (st : locals) : locals :=
  Locals c (tags_count st) (program_area_count st) (segment_count st)
    (channel_count st) (type_of_inquiry_count st) (spam_ticket_count st)
    (unique_tags st) (unique_program_areas st) (unique_segments st)
    (unique_channels st) (unique_types_of_inquiry st) (logged st).

Definition set_tags (cu : gmap string nat * gset string) (st : locals) : locals :=
  Locals (created_at_year_count st) cu.1 (program_area_count st) (segment_count st)
    (channel_count st) (type_of_inquiry_count st) (spam_ticket_count st)
    cu.2 (unique_program_areas st) (unique_segments st)
    (unique_channels st) (unique_types_of_inquiry st) (logged st).

Definition set_program_area (cu : gmap string nat * gset string) (st : locals) : locals :=
  Locals (created_at_year_count st) (tags_count st) cu.1 (segment_count st)
    (channel_count st) (type_of_inquiry_count st) (spam_ticket_count st)
    (unique_tags st) cu.2 (unique_segments st)
    (unique_channels st) (unique_types_of_inquiry st) (logged st).

Definition set_segment (cu : gmap string nat * gset string) (st : locals) : locals :=
  Locals (created_at_year_count st) (tags_count st) (program_area_count st) cu.1
    (channel_count st) (type_of_inquiry_count st) (spam_ticket_count st)
    (unique_tags st) (unique_program_areas st) cu.2
    (unique_channels st) (unique_types_of_inquiry st) (logged st).

Definition set_channel (cu : gmap string nat * gset string) (st : locals) : locals :=
  Locals (created_at_year_count st) (tags_count st) (program_area_count st)
    (segment_count st) cu.1 (type_of_inquiry_count st) (spam_ticket_count st)
    (unique_tags st) (unique_program_areas st) (unique_segments st)
    cu.2 (unique_types_of_inquiry st) (logged st).

Definition set_type_of_inquiry (cu : gmap string nat * gset string) (st : locals) : locals :=
  Locals (created_at_year_count st) (tags_count st) (program_area_count st)
    (segment_count st) (channel_count st) cu.1 (spam_ticket_count st)
    (unique_tags st) (unique_program_areas st) (unique_segments st)
    (unique_channels st) cu.2 (logged st).

Definition set_spam_ticket_count (n : nat) (st : locals) : locals :=
  Locals (created_at_year_count st) (tags_count st) (program_area_count st)
    (segment_count st) (channel_count st) (type_of_inquiry_count st) n
    (unique_tags st) (unique_program_areas st) (unique_segments st)
    (unique_channels st) (unique_types_of_inquiry st) (logged st).

Definition log (lvl : level) (msg : string) (st : locals) : locals :=
  Locals (created_at_year_count st) (tags_count st) (program_area_count st)
    (segment_count st) (channel_count st) (type_of_inquiry_count st)
    (spam_ticket_count st)
    (unique_tags st) (unique_program_areas st) (unique_segments st)
    (unique_channels st) (unique_types_of_inquiry st) (logged st ++ [(lvl, msg)]).

(** Lines 77-86: the year of [created_at]. *)
Definition count_year (entry : ticket) (st : locals) : locals :=
  match created_at entry with
  | Some c =>
      match Strptime.strptime c "%Y-%m-%dT%H:%M:%S.%fZ" with
      | Some dt =>
          set_created_at_year_count
            (incr (Strptime.year dt) (created_at_year_count st)) st
      | None =>
          match Strptime.strptime c "%Y-%m-%dT%H:%M:%S.%f%z" with
          | Some dt =>
              set_created_at_year_count
                (incr (Strptime.year dt) (created_at_year_count st)) st
          | None => log WARNING ("Invalid date format for entry: " +:+ c) st
          end
      end
  | None => st
  end.

(** Lines 89-93: the tags. *)
Definition count_tag (st : locals) (tag : string) : locals :=
  set_tags (incr tag (tags_count st), {[tag]} ∪ unique_tags st) st.

Definition count_tags (entry : ticket) (st : locals) : locals :=
  let tags := default [] (tags entry) in
  match tags with
  | [] => st
  | _ => foldl count_tag st tags
  end.

(** Lines 102-125: one turn of the loop over the custom fields. *)
Definition count_field (s : locals * resolved) (field : custom_field)
    : locals * resolved :=
  let (st, r) := s in
  let field_id := field_id field in
  let field_value := field_value field in
  let field_name := field_id ≫= (FIELD_ID_TO_NAME !!.) in
  if bool_decide (field_name = Some "program_area") then
    (set_program_area
       (tally field_value (program_area_count st) (unique_program_areas st)) st,
     Resolved field_value (segment r) (channel r) (type_of_inquiry r))
  else if bool_decide (field_name = Some "segment") then
    (set_segment (tally field_value (segment_count st) (unique_segments st)) st,
     Resolved (program_area r) field_value (channel r) (type_of_inquiry r))
  else if bool_decide (field_name = Some "channel") then
    (set_channel (tally field_value (channel_count st) (unique_channels st)) st,
     Resolved (program_area r) (segment r) field_value (type_of_inquiry r))
  else if bool_decide (field_name = Some "type_of_inquiry") then
    (set_type_of_inquiry
       (tally field_value (type_of_inquiry_count st) (unique_types_of_inquiry st)) st,
     Resolved (program_area r) (segment r) (channel r) field_value)
  else (st, r).

(** Lines 96-125: the loop over the custom fields of one ticket, from the
    four variables set to [None]. *)
Definition count_fields (entry : ticket) (st : locals) : locals * resolved :=
  foldl count_field (st, Resolved None None None None)
    (default [] (custom_fields entry)).

(** Lines 76-128: the body of the loop over the entries. *)
Definition analyze_entry (st : locals) (entry : ticket) : locals :=
  let st := count_year entry st in
  let st := count_tags entry st in
  let (st, r) := count_fields entry st in
  if negb (truthy (program_area r))
  then set_spam_ticket_count (spam_ticket_count st + 1) st
  else st.

Definition initial : locals :=
  Locals ∅ ∅ ∅ ∅ ∅ ∅ 0 ∅ ∅ ∅ ∅ ∅ [].

(** [analyze_data(data_entries)]: the statistics, and the records it logs. *)
Definition analyze_data (data_entries : list ticket) : analysis_stats * list log_record :=
  let st := foldl analyze_entry initial data_entries in
  (Stats.Make (length data_entries)
     (created_at_year_count st) (tags_count st) (program_area_count st)
     (segment_count st) (channel_count st) (type_of_inquiry_count st)
     (spam_ticket_count st)
     (unique_tags st) (unique_program_areas st) (unique_segments st)
     (unique_channels st) (unique_types_of_inquiry st),
   logged st).

End Aggregator.

(** ** The collator: [collate_and_analyze_json_files] *)

Module Collator.
Import Aggregator.

(** *** Paths *)

(** [s.endswith(suffix)]: some tail of [s] is [suffix]. *)
Fixpoint endswith (s suffix : string) : bool :=
  String.eqb s suffix ||
  match s with
  | String _ s' => endswith s' suffix
  | EmptyString => false
  end.

Definition startswith (s pre : string) : bool := String.prefix pre s.

(** [posixpath.join(a, b)]. *)
Definition join (a b : string) : string :=
  if startswith b "/" then b
  else if String.eqb a "" || endswith a "/" then a +:+ b
  else a +:+ "/" +:+ b.

(** [s.rfind(c)], [-1] when [c] does not occur. *)
Fixpoint rfind_from (c : ascii) (s : string) (i last : Z) : Z :=
  match s with
  | EmptyString => last
  | String x s' => rfind_from c s' (i + 1) (if Ascii.eqb x c then i else last)
  end.

Definition rfind (c : ascii) (s : string) : Z := rfind_from c s 0 (-1).

(** [os.path.basename(p)]. *)
Definition basename (p : string) : string :=
  let i := Z.to_nat (rfind "/" p + 1) in
  String.substring i (String.length p - i) p.

(** [os.path.splitext(p)]: the extension starts at the last dot of the last
    component, unless only dots come before it. *)
Definition splitext (p : string) : string * string :=
  let sepIndex := rfind "/" p in
  let dotIndex := rfind "." p in
  let filenameIndex := Z.to_nat (sepIndex + 1) in
  let stem := String.substring filenameIndex (Z.to_nat dotIndex - filenameIndex) p in
  if (sepIndex <? dotIndex)%Z &&
     existsb (λ x, negb (Ascii.eqb x ".")) (String.list_ascii_of_string stem)
  then (String.substring 0 (Z.to_nat dotIndex) p,
        String.substring (Z.to_nat dotIndex) (String.length p - Z.to_nat dotIndex) p)
  else (p, "").

(** *** The world of a run *)

(** A line of an input file, as [json.loads] sees it: a text it rejects (with
    the message of the [JSONDecodeError]), one ticket, or a list of
    tickets. *)
Inductive line : Type :=
| Malformed (e : string)
| Object (entry : ticket)
| Array (entries : list ticket).

(** What a run leaves behind, in order: the records it logs, the merged data
    it dumps, the workbooks it writes. *)
Inductive event : Type :=
| Logged (r : log_record)
| Dumped (path : string) (data : list ticket)
| Workbook (path : string) (stats : analysis_stats).

(** The entries of the input folder in the order of [os.listdir], each with
    its lines; the merged file at [output_file], if it exists, as the list
    that [json.load] returns; the trace of the run.  The output file and the
    workbooks are not entries of the input folder that a later listing could
    select (the script writes [combined.json] next to the folder, and a
    workbook's name ends in [.xlsx]). *)
Record world : Type := World {
  listdir : list (string * list line);
  persisted : option (list ticket);
  trace : list event
}.

Inductive exn : Type := ValueError (msg : string).

Inductive outcome : Type :=
| Returned
| Raised (e : exn).

Definition emit (e : event) (w : world) : world :=
  World (listdir w) (persisted w) (trace w ++ [e]).

Definition logging (lvl : level) (msg : string) (w : world) : world :=
  emit (Logged (lvl, msg)) w.

Definition replay (rs : list log_record) (w : world) : world :=
  World (listdir w) (persisted w) (trace w ++ (Logged <$> rs)).

(** [json.dump(all_data, f)] on [output_file]. *)
Definition dump (output_file : string) (all_data : list ticket) (w : world) : world :=
  World (listdir w) (Some all_data) (trace w ++ [Dumped output_file all_data]).

(** *** [process_file] *)

Definition read_line (file_path : string) (s : list ticket * world)
    (l : line) : list ticket * world :=
  let (data_entries, w) := s in
  match l with
  | Array data => (data_entries ++ data, w)
  | Object data => (data_entries ++ [data], w)
  | Malformed e =>
      (data_entries,
       logging ERROR ("Error reading line in " +:+ file_path +:+ ": " +:+ e) w)
  end.

Definition process_file (file_path : string) (lines : list line) (w : world)
    : list ticket * world :=
  let w := logging INFO ("Processing file: " +:+ basename file_path) w in
  foldl (read_line file_path) ([], w) lines.

(** *** [write_analysis_to_excel]: the renderer, seen from the core *)

Definition write_analysis_to_excel (analysis_stats : analysis_stats)
    (analysis_file : string) (w : world) : world :=
  let w := logging INFO ("Writing analysis to Excel file: " +:+ analysis_file) w in
  emit (Workbook analysis_file analysis_stats) w.

(** [analyze_data] run in a world: its warnings go to the trace. *)
Definition analyze (data_entries : list ticket) (w : world) : analysis_stats * world :=
  let (analysis_stats, warnings) := analyze_data data_entries in
  (analysis_stats, replay warnings w).

(** *** [collate_and_analyze_json_files] *)

(** Line 261. *)
Definition split_files (w : world) : list (string * list line) :=
  filter (λ f, endswith f.1 ".json" = true) (listdir w).

(** Lines 268-276: one turn of the loop over the split files. *)
Definition collate_file (input_folder : string) (s : list ticket * world)
    (f : string * list line) : list ticket * world :=
  let (all_data, w) := s in
  let (filename, lines) := f in
  let file_path := join input_folder filename in
  let (data_entries, w) := process_file file_path lines w in
  let all_data := all_data ++ data_entries in
  let (analysis_stats, w) := analyze data_entries w in
  let split_analysis_file := (splitext filename).1 +:+ "_analysis.xlsx" in
  (all_data, write_analysis_to_excel analysis_stats (join input_folder split_analysis_file) w).

(** Lines 278-298: the merged file is kept when its record count is that of
    the split files, written otherwise. *)
Definition persist (output_file : string) (all_data : list ticket) (w : world) : world :=
  let total_split_entries := length all_data in
  match persisted w with
  | Some existing_data =>
      let w := logging INFO
        (output_file +:+ " already exists. Verifying the integrity of the collated data...") w in
      let existing_data_count := length existing_data in
      if (existing_data_count =? total_split_entries)%nat
      then logging INFO "The collated data is complete. Skipping re-collation." w
      else
        let w := logging WARNING
          "The collated data does not match the split files. Re-collating data..." w in
        dump output_file all_data w
  | None =>
      let w := logging INFO "Writing combined JSON data to output file..." w in
      dump output_file all_data w
  end.

Definition validation_1_failed : exn := ValueError "Validation failed for combined data.".
Definition validation_2_failed : exn := ValueError "All tickets are considered spam.".

(** Lines 304-325: the two validation checks. *)
Definition validate (combined_analysis_stats : analysis_stats) (w : world)
    : outcome * world :=
  let total_tickets := Stats.total_tickets combined_analysis_stats in
  let total_program_area_tickets :=
    sum_values (Stats.program_area_count combined_analysis_stats) in
  let spam_ticket_count := Stats.spam_ticket_count combined_analysis_stats in
  if negb (total_tickets =? total_program_area_tickets + spam_ticket_count)%nat then
    (Raised validation_1_failed,
     logging ERROR
       ("Validation failed (1/2): Total tickets (" +:+ pretty total_tickets +:+
        ") do not match the sum of program area tickets (" +:+
        pretty total_program_area_tickets +:+ ") and spam tickets (" +:+
        pretty spam_ticket_count +:+ ").") w)
  else
    let w := logging INFO
      "Validation passed (1/2): Total tickets match the sum of program area tickets and spam tickets." w in
    if (total_tickets =? spam_ticket_count)%nat then
      (Raised validation_2_failed,
       logging ERROR
         ("Validation failed (2/2): All tickets are considered spam (" +:+
          pretty spam_ticket_count +:+ " out of " +:+ pretty total_tickets +:+
          "). Something went wrong.") w)
    else
      let w := logging INFO "Validation passed (2/2): Not all tickets are spam." w in
      (Returned, logging INFO "Collation and analysis completed successfully." w).

Definition collate_and_analyze_json_files
    (input_folder output_file combined_analysis_file : string) (w : world)
    : outcome * world :=
  match split_files w with
  | [] => (Returned, logging ERROR "No JSON files found in the input folder." w)
  | split_files =>
      let (all_data, w) := foldl (collate_file input_folder) ([], w) split_files in
      let w := persist output_file all_data w in
      let (combined_analysis_stats, w) := analyze all_data w in
      let w := write_analysis_to_excel combined_analysis_stats combined_analysis_file w in
      validate combined_analysis_stats w
  end.

End Collator.

(** ** Reference notions, in the words of the specification *)

Import Aggregator Collator.

(** The field is mapped to the category [name] by the lookup table. *)
Definition mapped_to (name : string) (field : custom_field) : Prop :=
  field_id field ≫= (FIELD_ID_TO_NAME !!.) = Some name.

Global Instance mapped_to_dec name field : Decision (mapped_to name field).
Proof. unfold mapped_to. apply _. Defined.

(** The resolved value of a category for a ticket: the value of the last
    custom field mapped to it, absent when there is none. *)
Definition resolve (name : string) (fields : list custom_field) : option string :=
  last (filter (mapped_to name) fields) ≫= field_value.

Definition fields_of (entry : ticket) : list custom_field :=
  default [] (custom_fields entry).

Definition tags_of (entry : ticket) : list string :=
  default [] (tags entry).

(** The values that the loop over the custom fields counts for a category:
    those of the fields mapped to it whose value is not empty, one per field,
    in order. *)
Definition counted_values (name : string) (fields : list custom_field) : list string :=
  omap field_value
    (filter (λ f, mapped_to name f ∧ truthy (field_value f) = true) fields).

(** Number of times [x] occurs in [l]. *)
Definition occurrences `{EqDecision A} (x : A) (l : list A) : nat :=
  length (filter (x =.) l).

(** ** Counters *)

Section counters.
Context `{Countable K}.
Implicit Types (d : gmap K nat) (k j : K).

Lemma incr_lookup_total k j d :
  incr k d !!! j = d !!! j + (if decide (k = j) then 1 else 0).
Proof.
  unfold incr. rewrite lookup_total_insert.
  case_decide; subst; lia.
Qed.

Lemma incr_lookup_total_eq k d : incr k d !!! k = S (d !!! k).
Proof. rewrite incr_lookup_total. case_decide; [lia | done]. Qed.

Lemma incr_lookup_total_ne k j d : k ≠ j → incr k d !!! j = d !!! j.
Proof. intros. rewrite incr_lookup_total. case_decide; [done | lia]. Qed.

Lemma sum_values_empty : sum_values (∅ : gmap K nat) = 0.
Proof. unfold sum_values. apply map_fold_empty. Qed.

Lemma sum_values_insert_fresh k n d :
  d !! k = None → sum_values (<[k := n]> d) = n + sum_values d.
Proof.
  intros Hk. unfold sum_values.
  rewrite map_fold_insert_L; [done | intros; lia | done].
Qed.

Lemma sum_values_delete k n d :
  d !! k = Some n → sum_values d = n + sum_values (delete k d).
Proof.
  intros Hk. unfold sum_values.
  rewrite (map_fold_delete_L _ _ k n d); [done | intros; lia | done].
Qed.

(** [d[k] += 1] adds one to [sum(d.values())]. *)
Lemma sum_values_incr k d : sum_values (incr k d) = S (sum_values d).
Proof.
  unfold incr. rewrite lookup_total_alt.
  destruct (d !! k) as [n|] eqn:Hk; simpl.
  - rewrite <- insert_delete_eq.
    rewrite sum_values_insert_fresh by apply lookup_delete_eq.
    rewrite (sum_values_delete k n d Hk). lia.
  - rewrite sum_values_insert_fresh by done. lia.
Qed.

End counters.

(** ** The loop over the custom fields *)

Lemma tally_lookup_total x count unique v :
  (tally x count unique).1 !!! v =
  count !!! v + (if decide (truthy x = true ∧ x = Some v) then 1 else 0).
Proof.
  unfold tally. destruct x as [s|]; simpl.
  - destruct (negb (String.eqb s "")) eqn:Hs; simpl.
    + rewrite incr_lookup_total.
      destruct (decide (s = v)) as [Heq|Hne],
               (decide (true = true ∧ Some s = Some v)) as [Hd|Hd];
        try done; exfalso; [apply Hd; by subst | apply Hne; naive_solver].
    + lia.
  - lia.
Qed.

Lemma tally_sum x count unique :
  sum_values (tally x count unique).1 =
  sum_values count + (if truthy x then 1 else 0).
Proof.
  unfold tally. destruct x as [s|]; simpl; [|lia].
  destruct (negb (String.eqb s "")); simpl; [|lia].
  rewrite sum_values_incr. lia.
Qed.

Lemma tally_unique x count unique :
  (tally x count unique).2 =
  unique ∪ (if truthy x then from_option singleton ∅ x else ∅).
Proof.
  unfold tally. destruct x as [s|]; simpl; [|set_solver].
  destruct (negb (String.eqb s "")); simpl; set_solver.
Qed.

Lemma tally_falsy x count unique :
  truthy x = false → tally x count unique = (count, unique).
Proof. unfold tally. destruct x; simpl; [intros ->|]; done. Qed.

(** A field is mapped to one category at most. *)
Lemma mapped_to_inj name1 name2 field :
  mapped_to name1 field → mapped_to name2 field → name1 = name2.
Proof. unfold mapped_to. congruence. Qed.

Ltac field_cases :=
  unfold count_field, mapped_to; simpl;
  repeat case_bool_decide; repeat case_decide; simpl; try congruence; try done.

(** What one turn does to the variables of a category. *)
Lemma count_field_program_area st r field :
  let s' := count_field (st, r) field in
  if decide (mapped_to "program_area" field)
  then program_area s'.2 = field_value field ∧
       (program_area_count s'.1, unique_program_areas s'.1) =
       tally (field_value field) (program_area_count st) (unique_program_areas st)
  else program_area s'.2 = program_area r ∧
       program_area_count s'.1 = program_area_count st ∧
       unique_program_areas s'.1 = unique_program_areas st.
Proof. field_cases; by destruct (tally _ _ _). Qed.

Lemma count_field_segment st r field :
  let s' := count_field (st, r) field in
  if decide (mapped_to "segment" field)
  then segment s'.2 = field_value field ∧
       (segment_count s'.1, unique_segments s'.1) =
       tally (field_value field) (segment_count st) (unique_segments st)
  else segment s'.2 = segment r ∧
       segment_count s'.1 = segment_count st ∧
       unique_segments s'.1 = unique_segments st.
Proof. field_cases; by destruct (tally _ _ _). Qed.

Lemma count_field_channel st r field :
  let s' := count_field (st, r) field in
  if decide (mapped_to "channel" field)
  then channel s'.2 = field_value field ∧
       (channel_count s'.1, unique_channels s'.1) =
       tally (field_value field) (channel_count st) (unique_channels st)
  else channel s'.2 = channel r ∧
       channel_count s'.1 = channel_count st ∧
       unique_channels s'.1 = unique_channels st.
Proof. field_cases; by destruct (tally _ _ _). Qed.

Lemma count_field_type_of_inquiry st r field :
  let s' := count_field (st, r) field in
  if decide (mapped_to "type_of_inquiry" field)
  then type_of_inquiry s'.2 = field_value field ∧
       (type_of_inquiry_count s'.1, unique_types_of_inquiry s'.1) =
       tally (field_value field) (type_of_inquiry_count st) (unique_types_of_inquiry st)
  else type_of_inquiry s'.2 = type_of_inquiry r ∧
       type_of_inquiry_count s'.1 = type_of_inquiry_count st ∧
       unique_types_of_inquiry s'.1 = unique_types_of_inquiry st.
Proof. field_cases; by destruct (tally _ _ _). Qed.

(** The loop leaves the years, the tags, the spam counter and the log
    alone. *)
Definition same_outside_fields (st st' : locals) : Prop :=
  created_at_year_count st' = created_at_year_count st ∧
  tags_count st' = tags_count st ∧
  unique_tags st' = unique_tags st ∧
  spam_ticket_count st' = spam_ticket_count st ∧
  logged st' = logged st.

Lemma count_field_frame st r field :
  same_outside_fields st (count_field (st, r) field).1.
Proof. unfold same_outside_fields. field_cases. Qed.

Lemma count_fields_frame entry st :
  same_outside_fields st (count_fields entry st).1.
Proof.
  unfold count_fields.
  induction (default [] (custom_fields entry)) as [|field fields IH] using rev_ind.
  - by unfold same_outside_fields.
  - rewrite foldl_snoc.
    destruct (foldl count_field _ fields) as [st1 r1].
    pose proof (count_field_frame st1 r1 field) as Hf.
    unfold same_outside_fields in *. simpl in *. naive_solver congruence.
Qed.

Lemma occurrences_app `{EqDecision A} (x : A) (l k : list A) :
  occurrences x (l ++ k) = occurrences x l + occurrences x k.
Proof. unfold occurrences. by rewrite filter_app, length_app. Qed.

Lemma resolve_snoc name fields field :
  resolve name (fields ++ [field]) =
  if decide (mapped_to name field) then field_value field else resolve name fields.
Proof.
  unfold resolve. rewrite filter_app, filter_cons, filter_nil.
  case_decide.
  - by rewrite last_snoc.
  - by rewrite app_nil_r.
Qed.

Lemma counted_values_snoc name fields field :
  counted_values name (fields ++ [field]) =
  counted_values name fields ++
  (if decide (mapped_to name field ∧ truthy (field_value field) = true)
   then option_list (field_value field) else []).
Proof.
  unfold counted_values. rewrite filter_app, omap_app, filter_cons, filter_nil.
  f_equal. case_decide; [|done]. simpl. by destruct (field_value field).
Qed.

(** The loop, category by category: [res], [cnt] and [uniq] are the
    variable, the counter and the set of the category [name]. *)
Section category.
Variables (name : string) (res : resolved → option string)
  (cnt : locals → gmap string nat) (uniq : locals → gset string).
Hypothesis res_initial : res (Resolved None None None None) = None.
Hypothesis turn : ∀ st r field,
  let s' := count_field (st, r) field in
  if decide (mapped_to name field)
  then res s'.2 = field_value field ∧
       (cnt s'.1, uniq s'.1) = tally (field_value field) (cnt st) (uniq st)
  else res s'.2 = res r ∧ cnt s'.1 = cnt st ∧ uniq s'.1 = uniq st.

Lemma fields_loop entry st :
  let s' := count_fields entry st in
  res s'.2 = resolve name (fields_of entry) ∧
  (∀ v, cnt s'.1 !!! v =
        cnt st !!! v + occurrences v (counted_values name (fields_of entry))) ∧
  sum_values (cnt s'.1) =
    sum_values (cnt st) + length (counted_values name (fields_of entry)) ∧
  uniq s'.1 = uniq st ∪ list_to_set (counted_values name (fields_of entry)).
Proof.
  unfold count_fields, fields_of.
  induction (default [] (custom_fields entry)) as [|field fields IH] using rev_ind.
  - simpl. rewrite res_initial. split_and!; try done. by rewrite (right_id_L ∅ (∪)).
  - rewrite foldl_snoc, resolve_snoc, counted_values_snoc.
    destruct (foldl count_field _ fields) as [st1 r1]. simpl in IH.
    destruct IH as (IHr & IHc & IHs & IHu).
    pose proof (turn st1 r1 field) as Ht. cbv zeta in Ht.
    destruct (decide (mapped_to name field)) as [Hm|Hm].
    + destruct Ht as [Hr Hcu]. split; [done|].
      pose proof (f_equal fst Hcu) as Hc. pose proof (f_equal snd Hcu) as Hu.
      cbn [fst snd] in Hc, Hu. rewrite Hc, Hu. clear Hc Hu Hcu.
      setoid_rewrite tally_lookup_total. rewrite tally_sum, tally_unique.
      setoid_rewrite occurrences_app. rewrite length_app, list_to_set_app_L.
      setoid_rewrite IHc. rewrite IHs, IHu.
      destruct (field_value field) as [s|]; simpl.
      * destruct (negb (String.eqb s "")) eqn:Hs; simpl.
        -- rewrite decide_True by done. simpl.
           split_and!; [|lia|set_solver].
           intros v. unfold occurrences at 3. rewrite filter_cons, filter_nil.
           destruct (decide (true = true ∧ Some s = Some v)) as [[_ [= ->]]|Hn].
           ++ rewrite decide_True by done. simpl.
              by rewrite <- Nat.add_assoc.
           ++ rewrite decide_False by naive_solver. simpl.
              by rewrite <- Nat.add_assoc.
        -- rewrite decide_False by naive_solver. simpl.
           split_and!; [intros; by rewrite <- Nat.add_assoc | lia | set_solver].
      * rewrite decide_False by naive_solver. simpl.
        split_and!; [intros; by rewrite <- Nat.add_assoc | lia | set_solver].
    + destruct Ht as (Hr & Hc & Hu). rewrite Hr, Hc, Hu.
      rewrite decide_False by naive_solver. rewrite app_nil_r.
      done.
Qed.

End category.

Definition fields_loop_program_area :=
  fields_loop "program_area" program_area program_area_count unique_program_areas
    eq_refl count_field_program_area.
Definition fields_loop_segment :=
  fields_loop "segment" segment segment_count unique_segments
    eq_refl count_field_segment.
Definition fields_loop_channel :=
  fields_loop "channel" channel channel_count unique_channels
    eq_refl count_field_channel.
Definition fields_loop_type_of_inquiry :=
  fields_loop "type_of_inquiry" type_of_inquiry type_of_inquiry_count
    unique_types_of_inquiry eq_refl count_field_type_of_inquiry.

(** ** The other steps of the loop over the entries *)

Definition same_categories (st st' : locals) : Prop :=
  program_area_count st' = program_area_count st ∧
  unique_program_areas st' = unique_program_areas st ∧
  segment_count st' = segment_count st ∧
  unique_segments st' = unique_segments st ∧
  channel_count st' = channel_count st ∧
  unique_channels st' = unique_channels st ∧
  type_of_inquiry_count st' = type_of_inquiry_count st ∧
  unique_types_of_inquiry st' = unique_types_of_inquiry st.

Lemma count_year_frame entry st :
  let st' := count_year entry st in
  same_categories st st' ∧
  tags_count st' = tags_count st ∧ unique_tags st' = unique_tags st ∧
  spam_ticket_count st' = spam_ticket_count st.
Proof.
  unfold count_year, same_categories.
  destruct (created_at entry) as [c|]; [|done].
  destruct (Strptime.strptime c "%Y-%m-%dT%H:%M:%S.%fZ"); [done|].
  destruct (Strptime.strptime c "%Y-%m-%dT%H:%M:%S.%f%z"); done.
Qed.

Lemma count_tag_frame st tag :
  let st' := count_tag st tag in
  same_categories st st' ∧
  created_at_year_count st' = created_at_year_count st ∧
  spam_ticket_count st' = spam_ticket_count st ∧
  logged st' = logged st.
Proof. by unfold count_tag, same_categories. Qed.

Lemma count_tags_spec entry st :
  let st' := count_tags entry st in
  (∀ tag, tags_count st' !!! tag =
          tags_count st !!! tag + occurrences tag (tags_of entry)) ∧
  unique_tags st' = unique_tags st ∪ list_to_set (tags_of entry) ∧
  (tags_of entry = [] → tags_count st' = tags_count st) ∧
  same_categories st st' ∧
  created_at_year_count st' = created_at_year_count st ∧
  spam_ticket_count st' = spam_ticket_count st ∧
  logged st' = logged st.
Proof.
  unfold count_tags, tags_of.
  assert (∀ l, (match l with [] => st | _ => foldl count_tag st l end)
               = foldl count_tag st l) as -> by (by intros []).
  induction (default [] (tags entry)) as [|tag l IH] using rev_ind.
  - simpl. split_and!; try done. by rewrite (right_id_L ∅ (∪)).
  - rewrite foldl_snoc.
    destruct IH as (IHc & IHu & _ & IHcat & IHy & IHs & IHl).
    pose proof (count_tag_frame (foldl count_tag st l) tag) as (Hcat & Hy & Hs & Hl).
    split_and!.
    + intros g. unfold count_tag at 1. simpl.
      rewrite incr_lookup_total, IHc, occurrences_app.
      unfold occurrences at 3. rewrite filter_cons, filter_nil.
      rewrite <- Nat.add_assoc. f_equal. f_equal.
      destruct (decide (tag = g)) as [->|Hne].
      * by rewrite decide_True.
      * by rewrite decide_False.
    + unfold count_tag at 1. simpl. rewrite IHu, list_to_set_app_L. set_solver.
    + by intros ?%app_nil_r_inv.
    + unfold same_categories in *. naive_solver congruence.
    + congruence.
    + congruence.
    + congruence.
Qed.

Lemma analyze_entry_unfold st entry :
  let s := count_fields entry (count_tags entry (count_year entry st)) in
  analyze_entry st entry =
  if negb (truthy (program_area s.2))
  then set_spam_ticket_count (spam_ticket_count s.1 + 1) s.1
  else s.1.
Proof. unfold analyze_entry. by destruct (count_fields _ _). Qed.

(** ** One entry *)

Lemma analyze_entry_outside_fields st entry :
  let st2 := count_tags entry (count_year entry st) in
  let st' := analyze_entry st entry in
  created_at_year_count st' = created_at_year_count st2 ∧
  tags_count st' = tags_count st2 ∧
  unique_tags st' = unique_tags st2 ∧
  logged st' = logged st2.
Proof.
  cbv zeta. rewrite analyze_entry_unfold.
  pose proof (count_fields_frame entry (count_tags entry (count_year entry st)))
    as (Hy & Ht & Hu & _ & Hl).
  by destruct (negb _).
Qed.

Lemma analyze_entry_tags st entry :
  let st' := analyze_entry st entry in
  (∀ tag, tags_count st' !!! tag =
          tags_count st !!! tag + occurrences tag (tags_of entry)) ∧
  unique_tags st' = unique_tags st ∪ list_to_set (tags_of entry) ∧
  (tags_of entry = [] → tags_count st' = tags_count st).
Proof.
  cbv zeta.
  pose proof (analyze_entry_outside_fields st entry) as (_ & Ht & Hu & _).
  pose proof (count_tags_spec entry (count_year entry st)) as (Hc & Hs & He & _).
  pose proof (count_year_frame entry st) as (_ & Hyt & Hyu & _).
  cbv zeta in *. rewrite Ht, Hu, Hs, Hyu. split_and!; [|done|].
  - intros tag. by rewrite Hc, Hyt.
  - intros Hnil. by rewrite He, Hyt.
Qed.

(** C4. Every occurrence of a tag in a ticket's tag sequence adds one to that
    tag's counter, duplicates included, and the tags join the set of distinct
    tags; tags [a, a, b] add 2 to the counter of [a] and 1 to that of [b]; a
    ticket whose tag sequence is empty or absent leaves the tag counters and
    the set of distinct tags as they were. *)
Theorem tags_counted_per_occurrence (st : locals) :
  (∀ entry tag,
     tags_count (analyze_entry st entry) !!! tag =
     tags_count st !!! tag + occurrences tag (tags_of entry)) ∧
  (∀ entry,
     unique_tags (analyze_entry st entry) =
     unique_tags st ∪ list_to_set (tags_of entry)) ∧
  (∀ created fields,
     let st' := analyze_entry st (Ticket created (Some ["a"; "a"; "b"]) fields) in
     tags_count st' !!! "a" = tags_count st !!! "a" + 2 ∧
     tags_count st' !!! "b" = tags_count st !!! "b" + 1) ∧
  (∀ created fields,
     let absent := analyze_entry st (Ticket created None fields) in
     let empty := analyze_entry st (Ticket created (Some []) fields) in
     tags_count absent = tags_count st ∧ unique_tags absent = unique_tags st ∧
     tags_count empty = tags_count st ∧ unique_tags empty = unique_tags st).
Proof.
  split_and!.
  - intros entry. apply analyze_entry_tags.
  - intros entry. apply analyze_entry_tags.
  - intros created fields.
    pose proof (analyze_entry_tags st (Ticket created (Some ["a"; "a"; "b"]) fields))
      as (Hc & _).
    cbv zeta in *. by rewrite !Hc.
  - intros created fields.
    pose proof (analyze_entry_tags st (Ticket created None fields)) as (_ & Hu1 & He1).
    pose proof (analyze_entry_tags st (Ticket created (Some []) fields)) as (_ & Hu2 & He2).
    cbv zeta in *. rewrite Hu1, Hu2, He1, He2 by done.
    simpl. by rewrite (right_id_L ∅ (∪)).
Qed.

Lemma analyze_entry_spam st entry :
  spam_ticket_count (analyze_entry st entry) =
  spam_ticket_count st +
  (if truthy (resolve "program_area" (fields_of entry)) then 0 else 1).
Proof.
  rewrite analyze_entry_unfold. cbv zeta.
  pose proof (fields_loop_program_area entry (count_tags entry (count_year entry st)))
    as (Hr & _).
  pose proof (count_fields_frame entry (count_tags entry (count_year entry st)))
    as (_ & _ & _ & Hs & _).
  pose proof (count_tags_spec entry (count_year entry st)) as (_ & _ & _ & _ & _ & Hs' & _).
  pose proof (count_year_frame entry st) as (_ & _ & _ & Hs'').
  cbv zeta in *. rewrite Hr.
  destruct (truthy _); simpl; lia.
Qed.

Lemma analyze_entry_program_area st entry v :
  program_area_count (analyze_entry st entry) !!! v =
  program_area_count st !!! v +
  occurrences v (counted_values "program_area" (fields_of entry)).
Proof.
  rewrite analyze_entry_unfold. cbv zeta.
  pose proof (fields_loop_program_area entry (count_tags entry (count_year entry st)))
    as (_ & Hc & _).
  pose proof (count_tags_spec entry (count_year entry st)) as (_ & _ & _ & (Hp & _) & _).
  pose proof (count_year_frame entry st) as ((Hp' & _) & _).
  cbv zeta in *.
  destruct (negb _); simpl; by rewrite Hc, Hp, Hp'.
Qed.

(** The last field mapped to a category is among the fields counted for it
    when its value is not empty. *)
Lemma resolve_counted name fields v :
  resolve name fields = Some v → truthy (Some v) = true →
  1 ≤ occurrences v (counted_values name fields).
Proof.
  induction fields as [|field fields IH] using rev_ind; [done|].
  rewrite resolve_snoc, counted_values_snoc, occurrences_app.
  destruct (decide (mapped_to name field)) as [Hm|Hm].
  - intros Hv Ht. rewrite decide_True by (by rewrite Hv).
    rewrite Hv. unfold occurrences at 2. simpl.
    rewrite filter_cons, decide_True by done. simpl. lia.
  - intros Hv Ht. specialize (IH Hv Ht). lia.
Qed.


Lemma analyze_entry_program_area_sum st entry :
  sum_values (program_area_count (analyze_entry st entry)) =
  sum_values (program_area_count st) +
  length (counted_values "program_area" (fields_of entry)).
Proof.
  rewrite analyze_entry_unfold. cbv zeta.
  pose proof (fields_loop_program_area entry (count_tags entry (count_year entry st)))
    as (_ & _ & Hc & _).
  pose proof (count_tags_spec entry (count_year entry st)) as (_ & _ & _ & (Hp & _) & _).
  pose proof (count_year_frame entry st) as ((Hp' & _) & _).
  cbv zeta in *.
  destruct (negb _); simpl; by rewrite Hc, Hp, Hp'.
Qed.

Lemma occurrences_le_length `{EqDecision A} (x : A) (l : list A) :
  occurrences x l ≤ length l.
Proof. unfold occurrences. apply length_filter. Qed.

(** What an entry adds to the two sides of the first validation check. *)
Definition balance (st : locals) : nat :=
  sum_values (program_area_count st) + spam_ticket_count st.

Lemma analyze_entry_balance st entry :
  balance (analyze_entry st entry) =
  balance st + length (counted_values "program_area" (fields_of entry)) +
  (if truthy (resolve "program_area" (fields_of entry)) then 0 else 1).
Proof.
  unfold balance. rewrite analyze_entry_program_area_sum, analyze_entry_spam. lia.
Qed.

Lemma analyze_entry_balance_ge st entry :
  balance st + 1 ≤ balance (analyze_entry st entry).
Proof.
  rewrite analyze_entry_balance.
  destruct (resolve "program_area" (fields_of entry)) as [v|] eqn:Hr; simpl; [|lia].
  destruct (negb (String.eqb v "")) eqn:Hv; [|lia].
  pose proof (resolve_counted _ _ _ Hr Hv).
  pose proof (occurrences_le_length v (counted_values "program_area" (fields_of entry))).
  lia.
Qed.

Lemma counted_values_alt name fields :
  counted_values name fields =
  omap field_value
    (filter (λ f, truthy (field_value f) = true) (filter (mapped_to name) fields)).
Proof.
  unfold counted_values. rewrite list_filter_filter. f_equal.
  apply list_filter_iff. intros f. tauto.
Qed.

(** The ticket has one custom field mapped to the program area at most. *)
Definition single_program_area (entry : ticket) : Prop :=
  length (filter (mapped_to "program_area") (fields_of entry)) ≤ 1.

Lemma analyze_entry_balance_single st entry :
  single_program_area entry → balance (analyze_entry st entry) = balance st + 1.
Proof.
  unfold single_program_area. rewrite analyze_entry_balance.
  rewrite counted_values_alt. unfold resolve.
  destruct (filter (mapped_to "program_area") (fields_of entry)) as [|f [|f' l]];
    simpl; [lia | | lia].
  intros _. rewrite filter_cons, filter_nil.
  destruct f as [fid [v|]]; simpl; [|lia].
  destruct (negb (String.eqb v "")).
  - rewrite decide_True by done. simpl. lia.
  - rewrite decide_False by done. simpl. lia.
Qed.

Lemma foldl_analyze_entry_balance_ge data_entries st :
  balance st + length data_entries ≤ balance (foldl analyze_entry st data_entries).
Proof.
  revert st. induction data_entries as [|entry l IH]; intros st; simpl; [lia|].
  specialize (IH (analyze_entry st entry)).
  pose proof (analyze_entry_balance_ge st entry). lia.
Qed.

Lemma foldl_analyze_entry_balance_single data_entries st :
  Forall single_program_area data_entries →
  balance (foldl analyze_entry st data_entries) = balance st + length data_entries.
Proof.
  revert st. induction data_entries as [|entry l IH]; intros st Hall; simpl; [lia|].
  inversion Hall as [|? ? He Hl]; subst.
  rewrite (IH _ Hl), (analyze_entry_balance_single _ _ He). lia.
Qed.

(** No ticket is dropped: the total never exceeds the sum of the program
    area counts and the spam count. *)
Lemma analyze_data_total_le data_entries :
  let r := (analyze_data data_entries).1 in
  Stats.total_tickets r ≤
  sum_values (Stats.program_area_count r) + Stats.spam_ticket_count r.
Proof.
  simpl. pose proof (foldl_analyze_entry_balance_ge data_entries initial) as H.
  unfold balance in H. simpl in H. rewrite (sum_values_empty (K:=string)) in H. lia.
Qed.

(** When no ticket carries more than one program-area field, the two sides
    of the first validation check agree. *)
Lemma analyze_data_balanced data_entries :
  Forall single_program_area data_entries →
  let r := (analyze_data data_entries).1 in
  Stats.total_tickets r =
  sum_values (Stats.program_area_count r) + Stats.spam_ticket_count r.
Proof.
  intros Hall. simpl.
  pose proof (foldl_analyze_entry_balance_single data_entries initial Hall) as H.
  unfold balance in H. simpl in H. rewrite (sum_values_empty (K:=string)) in H. lia.
Qed.

(** ** Tickets with several program-area fields *)

Definition program_area_field (v : string) : custom_field :=
  CustomField (Some 38830788%Z) (Some v).

(** Two program-area fields with different values. *)
Definition shadowed_ticket : ticket :=
  Ticket None None (Some [program_area_field "A"; program_area_field "B"]).

(** A program-area field followed by one with an empty value. *)
Definition emptied_ticket : ticket :=
  Ticket None None (Some [program_area_field "A"; program_area_field ""]).

(** The same program area twice. *)
Definition repeated_ticket : ticket :=
  Ticket None None (Some [program_area_field "A"; program_area_field "A"]).

(** C1, at a ticket with two program-area fields: the ticket is counted once
    in the total and twice in the program-area counters, so the total differs
    from the sum of the program-area counts and the spam count, and the run
    over a file holding that ticket fails its own first validation check. *)
Theorem duplicate_program_area_unbalances_totals :
  let r := (analyze_data [shadowed_ticket]).1 in
  let w := World [("tickets.json", [Object shadowed_ticket])] None [] in
  Stats.total_tickets r = 1 ∧
  sum_values (Stats.program_area_count r) = 2 ∧
  Stats.spam_ticket_count r = 0 ∧
  Stats.total_tickets r ≠
    sum_values (Stats.program_area_count r) + Stats.spam_ticket_count r ∧
  (collate_and_analyze_json_files "./json_files" "combined.json"
     "combined_analysis.xlsx" w).1 = Raised validation_1_failed.
Proof. vm_compute. split_and!; try reflexivity. discriminate. Qed.

(** C2, at tickets with several program-area fields: every field with a
    non-empty value is counted, not only the resolved one.  With values A then
    B the resolved value is B and both counters go up; with A then the empty
    string the resolved value is empty and A is counted all the same; with A
    twice the counter of A goes up by two. *)
Theorem shadowed_fields_are_counted :
  let shadowed := analyze_entry initial shadowed_ticket in
  let emptied := analyze_entry initial emptied_ticket in
  let repeated := analyze_entry initial repeated_ticket in
  resolve "program_area" (fields_of shadowed_ticket) = Some "B" ∧
  program_area_count shadowed !!! "A" = 1 ∧
  program_area_count shadowed !!! "B" = 1 ∧
  elements (unique_program_areas shadowed) = ["A"; "B"] ∧
  resolve "program_area" (fields_of emptied_ticket) = Some "" ∧
  program_area_count emptied !!! "A" = 1 ∧
  elements (unique_program_areas emptied) = ["A"] ∧
  spam_ticket_count emptied = 1 ∧
  program_area_count repeated !!! "A" = 2.
Proof. vm_compute. split_and!; reflexivity. Qed.

(** ** The year of [created_at] *)

(** The year a timestamp is attributed to: the format with the literal [Z]
    first, the format with a numeric offset when the first one fails. *)
Definition year_of (c : string) : option Z :=
  match Strptime.strptime c "%Y-%m-%dT%H:%M:%S.%fZ" with
  | Some dt => Some (Strptime.year dt)
  | None => Strptime.year <$> Strptime.strptime c "%Y-%m-%dT%H:%M:%S.%f%z"
  end.

Arguments year_of : simpl never.

(** The warning an entry causes: one for a [created_at] that is present and
    matches neither format, none otherwise. *)
Definition warnings_of (entry : ticket) : list log_record :=
  match created_at entry with
  | Some c =>
      match year_of c with
      | Some _ => []
      | None => [(WARNING, "Invalid date format for entry: " +:+ c)]
      end
  | None => []
  end.

Lemma count_year_spec entry st :
  created_at_year_count (count_year entry st) =
    match created_at entry ≫= year_of with
    | Some y => incr y (created_at_year_count st)
    | None => created_at_year_count st
    end ∧
  logged (count_year entry st) = logged st ++ warnings_of entry.
Proof.
  unfold count_year, warnings_of, year_of.
  destruct (created_at entry) as [c|]; simpl; [|by rewrite app_nil_r].
  destruct (Strptime.strptime c "%Y-%m-%dT%H:%M:%S.%fZ"); simpl;
    [by rewrite app_nil_r|].
  destruct (Strptime.strptime c "%Y-%m-%dT%H:%M:%S.%f%z"); simpl;
    [by rewrite app_nil_r | done].
Qed.

Lemma analyze_entry_year st entry :
  created_at_year_count (analyze_entry st entry) =
    match created_at entry ≫= year_of with
    | Some y => incr y (created_at_year_count st)
    | None => created_at_year_count st
    end ∧
  logged (analyze_entry st entry) = logged st ++ warnings_of entry.
Proof.
  pose proof (analyze_entry_outside_fields st entry) as (Hy & _ & _ & Hl).
  pose proof (count_tags_spec entry (count_year entry st))
    as (_ & _ & _ & _ & Hy' & _ & Hl').
  pose proof (count_year_spec entry st) as (Hy'' & Hl'').
  cbv zeta in *. by rewrite Hy, Hl, Hy', Hl', Hy'', Hl''.
Qed.

Lemma foldl_analyze_entry_logged data_entries st :
  logged (foldl analyze_entry st data_entries) =
  logged st ++ concat (warnings_of <$> data_entries).
Proof.
  revert st. induction data_entries as [|entry l IH]; intros st; simpl.
  - by rewrite app_nil_r.
  - rewrite IH. pose proof (analyze_entry_year st entry) as (_ & ->).
    by rewrite <- app_assoc.
Qed.

Lemma foldl_analyze_entry_year data_entries st y :
  created_at_year_count (foldl analyze_entry st data_entries) !!! y =
  created_at_year_count st !!! y +
  length (filter (λ e, created_at e ≫= year_of = Some y) data_entries).
Proof.
  revert st. induction data_entries as [|entry l IH]; intros st; simpl; [lia|].
  rewrite IH. pose proof (analyze_entry_year st entry) as (-> & _).
  rewrite filter_cons.
  destruct (created_at entry ≫= year_of) as [y'|] eqn:Hy.
  - rewrite incr_lookup_total.
    destruct (decide (y' = y)) as [->|Hne].
    + rewrite decide_True by done. simpl. lia.
    + rewrite decide_False by congruence. lia.
  - rewrite decide_False by done. lia.
Qed.



(** ** The run *)

(** The tickets a file holds: those of its lines that parse, in order. *)
Definition entries_of (lines : list line) : list ticket :=
  concat ((λ l, match l with
                | Malformed _ => []
                | Object entry => [entry]
                | Array entries => entries
                end) <$> lines).

(** The union of a run: the tickets of the entries of the input folder whose
    name ends in [.json], in the order of the listing. *)
Definition union (w : world) : list ticket :=
  concat ((λ f, entries_of f.2) <$>
          filter (λ f, endswith f.1 ".json" = true) (listdir w)).

(** The merged data written during a trace, with the path written to. *)
Definition dumps (tr : list event) : list (string * list ticket) :=
  omap (λ e, match e with Dumped path data => Some (path, data) | _ => None end) tr.

(** The workbooks written during a trace. *)
Definition workbooks (tr : list event) : list (string * analysis_stats) :=
  omap (λ e, match e with Workbook path stats => Some (path, stats) | _ => None end) tr.

(** [w'] comes from [w] without touching the input folder or the merged
    file. *)
Definition quiet (w w' : world) : Prop :=
  listdir w' = listdir w ∧ persisted w' = persisted w ∧
  dumps (trace w') = dumps (trace w).

(** The loop over the split files, lines 268-276. *)
Definition loaded (input_folder : string) (w : world) : list ticket * world :=
  foldl (collate_file input_folder) ([], w) (split_files w).

Lemma quiet_refl w : quiet w w.
Proof. by unfold quiet. Qed.

Lemma quiet_trans w1 w2 w3 : quiet w1 w2 → quiet w2 w3 → quiet w1 w3.
Proof. unfold quiet. naive_solver congruence. Qed.

Lemma dumps_app tr1 tr2 : dumps (tr1 ++ tr2) = dumps tr1 ++ dumps tr2.
Proof. apply omap_app. Qed.

Lemma dumps_logged rs : dumps (Logged <$> rs) = [].
Proof. induction rs; [done | by simpl]. Qed.

Lemma quiet_logging lvl msg w : quiet w (logging lvl msg w).
Proof.
  unfold quiet, logging, emit. simpl. rewrite dumps_app. simpl.
  by rewrite app_nil_r.
Qed.

Lemma quiet_replay rs w : quiet w (replay rs w).
Proof.
  unfold quiet, replay. simpl. rewrite dumps_app, dumps_logged.
  by rewrite app_nil_r.
Qed.

Lemma quiet_write_analysis_to_excel stats file w :
  quiet w (write_analysis_to_excel stats file w).
Proof.
  unfold write_analysis_to_excel, quiet, emit, logging, emit. simpl.
  rewrite !dumps_app. simpl. by rewrite !app_nil_r.
Qed.

Lemma analyze_spec data_entries w :
  (analyze data_entries w).1 = (analyze_data data_entries).1 ∧
  quiet w (analyze data_entries w).2.
Proof.
  unfold analyze. destruct (analyze_data data_entries) as [stats warnings].
  split; [done | apply quiet_replay].
Qed.

Lemma read_line_spec file_path data_entries w l :
  let s := read_line file_path (data_entries, w) l in
  s.1 = data_entries ++ entries_of [l] ∧ quiet w s.2.
Proof.
  unfold entries_of. destruct l as [e|entry|entries]; simpl.
  - rewrite app_nil_r. split; [done | apply quiet_logging].
  - split; [done | apply quiet_refl].
  - rewrite app_nil_r. split; [done | apply quiet_refl].
Qed.

Lemma entries_of_app l1 l2 : entries_of (l1 ++ l2) = entries_of l1 ++ entries_of l2.
Proof. unfold entries_of. by rewrite fmap_app, concat_app. Qed.

(** [process_file] returns the tickets of the lines that parse and writes
    nothing but log records. *)
Lemma process_file_spec file_path lines w :
  (process_file file_path lines w).1 = entries_of lines ∧
  quiet w (process_file file_path lines w).2.
Proof.
  unfold process_file.
  induction lines as [|l lines IH] using rev_ind.
  - simpl. split; [done | apply quiet_logging].
  - rewrite foldl_snoc.
    destruct (foldl _ _ lines) as [data_entries w1]. simpl in IH.
    destruct IH as [-> Hq].
    pose proof (read_line_spec file_path (entries_of lines) w1 l) as (Hd & Hq').
    cbv zeta in *. rewrite Hd.
    rewrite entries_of_app. split; [done | by eapply quiet_trans].
Qed.

Lemma collate_file_spec input_folder all_data w f :
  let s := collate_file input_folder (all_data, w) f in
  s.1 = all_data ++ entries_of f.2 ∧ quiet w s.2.
Proof.
  destruct f as [filename lines]. unfold collate_file.
  pose proof (process_file_spec (join input_folder filename) lines w) as (Hd & Hq).
  destruct (process_file _ lines w) as [data_entries w1]. simpl in Hd, Hq. subst.
  pose proof (analyze_spec (entries_of lines) w1) as (_ & Hq').
  destruct (analyze (entries_of lines) w1) as [stats w2]. simpl in *.
  split; [done|].
  eapply quiet_trans; [exact Hq|].
  eapply quiet_trans; [exact Hq'|]. apply quiet_write_analysis_to_excel.
Qed.

Lemma foldl_collate_file_spec input_folder files all_data w :
  let s := foldl (collate_file input_folder) (all_data, w) files in
  s.1 = all_data ++ concat ((λ f, entries_of f.2) <$> files) ∧ quiet w s.2.
Proof.
  induction files as [|f files IH] using rev_ind.
  - simpl. rewrite app_nil_r. split; [done | apply quiet_refl].
  - rewrite foldl_snoc.
    destruct (foldl _ _ files) as [data w1]. simpl in IH. destruct IH as [-> Hq].
    pose proof (collate_file_spec input_folder
                  (all_data ++ concat ((λ f, entries_of f.2) <$> files)) w1 f)
      as (Hd & Hq').
    cbv zeta in *. rewrite Hd.
    rewrite fmap_app, concat_app. simpl. rewrite app_nil_r, app_assoc.
    split; [done | by eapply quiet_trans].
Qed.

(** The loop gathers the union and leaves the folder and the merged file
    alone. *)
Lemma loaded_spec input_folder w :
  (loaded input_folder w).1 = union w ∧ quiet w (loaded input_folder w).2.
Proof. apply (foldl_collate_file_spec input_folder (split_files w) [] w). Qed.

Lemma persist_listdir output_file all_data w :
  listdir (persist output_file all_data w) = listdir w.
Proof.
  unfold persist. destruct (persisted w); [|done].
  by destruct (_ =? _)%nat.
Qed.

Lemma persist_kept output_file all_data w existing :
  persisted w = Some existing → length existing = length all_data →
  persisted (persist output_file all_data w) = Some existing ∧
  dumps (trace (persist output_file all_data w)) = dumps (trace w).
Proof.
  intros Hp Hlen. unfold persist. rewrite Hp, Hlen, Nat.eqb_refl. simpl.
  rewrite !dumps_app. simpl. by rewrite !app_nil_r.
Qed.

Lemma persist_overwritten output_file all_data w existing :
  persisted w = Some existing → length existing ≠ length all_data →
  persisted (persist output_file all_data w) = Some all_data ∧
  dumps (trace (persist output_file all_data w)) =
    dumps (trace w) ++ [(output_file, all_data)].
Proof.
  intros Hp Hlen. unfold persist. rewrite Hp.
  apply Nat.eqb_neq in Hlen. rewrite Hlen. simpl.
  rewrite !dumps_app. simpl. by rewrite !app_nil_r.
Qed.

Lemma persist_written output_file all_data w :
  persisted w = None →
  persisted (persist output_file all_data w) = Some all_data ∧
  dumps (trace (persist output_file all_data w)) =
    dumps (trace w) ++ [(output_file, all_data)].
Proof.
  intros Hp. unfold persist. rewrite Hp. simpl.
  rewrite !dumps_app. simpl. by rewrite !app_nil_r.
Qed.

(** Whatever was there, the merged file ends up with as many records as the
    union. *)
Lemma persist_length output_file all_data w :
  ∃ merged, persisted (persist output_file all_data w) = Some merged ∧
            length merged = length all_data.
Proof.
  destruct (persisted w) as [existing|] eqn:Hp.
  - destruct (decide (length existing = length all_data)) as [Hlen|Hlen].
    + exists existing. split; [|done]. by apply persist_kept.
    + exists all_data. split; [|done]. by eapply persist_overwritten.
  - exists all_data. split; [|done]. by apply persist_written.
Qed.

Lemma quiet_validate stats w : quiet w (validate stats w).2.
Proof.
  unfold validate. destruct (negb _); simpl; [apply quiet_logging|].
  destruct (_ =? _)%nat; simpl.
  - eapply quiet_trans; apply quiet_logging.
  - eapply quiet_trans; [apply quiet_logging|].
    eapply quiet_trans; apply quiet_logging.
Qed.

(** The outcome of the validation is decided by the statistics alone. *)
Lemma validate_outcome stats w :
  (validate stats w).1 =
  if negb (Stats.total_tickets stats =?
           sum_values (Stats.program_area_count stats) +
           Stats.spam_ticket_count stats)%nat
  then Raised validation_1_failed
  else if (Stats.total_tickets stats =? Stats.spam_ticket_count stats)%nat
       then Raised validation_2_failed
       else Returned.
Proof.
  unfold validate. destruct (negb _); [done|]. by destruct (_ =? _)%nat.
Qed.

(** The run, once the folder holds input files: the loop, the merge, the
    analysis of the union, its workbook, the validation. *)
Lemma collate_with_files input_folder output_file combined_analysis_file w :
  split_files w ≠ [] →
  collate_and_analyze_json_files input_folder output_file combined_analysis_file w =
  let s := loaded input_folder w in
  let w1 := persist output_file s.1 s.2 in
  let a := analyze s.1 w1 in
  validate a.1 (write_analysis_to_excel a.1 combined_analysis_file a.2).
Proof.
  intros Hne. unfold collate_and_analyze_json_files, loaded.
  destruct (split_files w) as [|f files] eqn:Hf; [done|].
  destruct (foldl _ _ (f :: files)) as [all_data w1]. simpl.
  by destruct (analyze all_data (persist output_file all_data w1)).
Qed.

Lemma collate_without_files input_folder output_file combined_analysis_file w :
  split_files w = [] →
  collate_and_analyze_json_files input_folder output_file combined_analysis_file w =
  (Returned, logging ERROR "No JSON files found in the input folder." w).
Proof. intros Hf. unfold collate_and_analyze_json_files. by rewrite Hf. Qed.

(** What a run with input files leaves: the listing as it was, and a merged
    file and dumps that are those of the merge step. *)
Lemma collate_effects input_folder output_file combined_analysis_file w :
  split_files w ≠ [] →
  let w' := (collate_and_analyze_json_files input_folder output_file
               combined_analysis_file w).2 in
  let wp := persist output_file (union w) (loaded input_folder w).2 in
  quiet w (loaded input_folder w).2 ∧ quiet wp w' ∧
  (collate_and_analyze_json_files input_folder output_file
     combined_analysis_file w).1 = (validate (analyze_data (union w)).1 w).1.
Proof.
  intros Hne. cbv zeta. rewrite collate_with_files by done. cbv zeta.
  pose proof (loaded_spec input_folder w) as (Hu & Hq). rewrite Hu.
  pose proof (analyze_spec (union w)
                (persist output_file (union w) (loaded input_folder w).2))
    as (Ha & Hqa).
  rewrite Ha. split_and!; [done | | by rewrite !validate_outcome].
  eapply quiet_trans; [exact Hqa|].
  eapply quiet_trans; [apply quiet_write_analysis_to_excel | apply quiet_validate].
Qed.

Lemma split_files_quiet w w' : quiet w w' → split_files w' = split_files w.
Proof. intros (Hl & _). unfold split_files. by rewrite Hl. Qed.

Lemma union_quiet w w' : quiet w w' → union w' = union w.
Proof. intros (Hl & _). unfold union. by rewrite Hl. Qed.

(** The same world with another listing of the input folder. *)
Definition relist (l : list (string * list line)) (w : world) : world :=
  World l (persisted w) (trace w).

Lemma split_files_listdir w w' : listdir w' = listdir w → split_files w' = split_files w.
Proof. intros Hl. unfold split_files. by rewrite Hl. Qed.

Lemma union_listdir w w' : listdir w' = listdir w → union w' = union w.
Proof. intros Hl. unfold union. by rewrite Hl. Qed.

Lemma analyze_relist l data_entries w :
  analyze data_entries (relist l w) =
  ((analyze data_entries w).1, relist l (analyze data_entries w).2).
Proof. unfold analyze. by destruct (analyze_data data_entries). Qed.

Lemma read_line_relist l file_path data_entries w ln :
  read_line file_path (data_entries, relist l w) ln =
  ((read_line file_path (data_entries, w) ln).1,
   relist l (read_line file_path (data_entries, w) ln).2).
Proof. by destruct ln. Qed.

Lemma foldl_read_line_relist l file_path lines data_entries w :
  foldl (read_line file_path) (data_entries, relist l w) lines =
  ((foldl (read_line file_path) (data_entries, w) lines).1,
   relist l (foldl (read_line file_path) (data_entries, w) lines).2).
Proof.
  revert data_entries w. induction lines as [|ln lines IH]; intros data w; [done|].
  cbn [foldl]. rewrite read_line_relist.
  destruct (read_line file_path (data, w) ln) as [data' w']. cbn [fst snd]. apply IH.
Qed.

Lemma process_file_relist l file_path lines w :
  process_file file_path lines (relist l w) =
  ((process_file file_path lines w).1, relist l (process_file file_path lines w).2).
Proof.
  unfold process_file.
  apply (foldl_read_line_relist l file_path lines []
           (logging INFO ("Processing file: " +:+ basename file_path) w)).
Qed.

Lemma collate_file_relist l input_folder all_data w f :
  collate_file input_folder (all_data, relist l w) f =
  ((collate_file input_folder (all_data, w) f).1,
   relist l (collate_file input_folder (all_data, w) f).2).
Proof.
  destruct f as [filename lines]. unfold collate_file.
  rewrite process_file_relist.
  destruct (process_file _ lines w) as [data_entries w1]. cbn [fst snd].
  rewrite analyze_relist.
  by destruct (analyze data_entries w1) as [stats w2].
Qed.

Lemma foldl_collate_file_relist l input_folder files all_data w :
  foldl (collate_file input_folder) (all_data, relist l w) files =
  ((foldl (collate_file input_folder) (all_data, w) files).1,
   relist l (foldl (collate_file input_folder) (all_data, w) files).2).
Proof.
  revert all_data w. induction files as [|f files IH]; intros data w; [done|].
  cbn [foldl]. rewrite collate_file_relist.
  destruct (collate_file input_folder (data, w) f) as [data' w']. cbn [fst snd].
  apply IH.
Qed.

Lemma persist_relist l output_file all_data w :
  persist output_file all_data (relist l w) =
  relist l (persist output_file all_data w).
Proof.
  unfold persist. simpl. destruct (persisted w); [|done].
  by destruct (_ =? _)%nat.
Qed.

Lemma validate_relist l stats w :
  validate stats (relist l w) = ((validate stats w).1, relist l (validate stats w).2).
Proof.
  unfold validate. destruct (negb _); [done|]. by destruct (_ =? _)%nat.
Qed.

Lemma split_files_idemp w l :
  l = split_files w → split_files (relist l w) = split_files w.
Proof.
  intros ->. unfold split_files. simpl.
  rewrite list_filter_filter. apply list_filter_iff. intros f. tauto.
Qed.

(** A run sees the input folder through the names that end in [.json]
    only. *)
Lemma collate_relist input_folder output_file combined_analysis_file w :
  let run := collate_and_analyze_json_files input_folder output_file
               combined_analysis_file in
  run (relist (split_files w) w) = ((run w).1, relist (split_files w) (run w).2).
Proof.
  cbv zeta. unfold collate_and_analyze_json_files.
  rewrite (split_files_idemp w (split_files w) eq_refl).
  destruct (split_files w) as [|f files] eqn:Hf; [done|].
  rewrite foldl_collate_file_relist.
  destruct (foldl _ _ (f :: files)) as [all_data w1]. cbn [fst snd].
  rewrite persist_relist, analyze_relist.
  destruct (analyze all_data (persist output_file all_data w1)) as [stats w2].
  cbn [fst snd].
  apply (validate_relist _ stats
           (write_analysis_to_excel stats combined_analysis_file w2)).
Qed.

(** ** The collator and the validator *)


(** C7. With no input file in the folder the run ends at once: it logs the
    error and returns, the merged file is as it was, and no merged data and
    no workbook is written. *)
Theorem no_input_files_aborts_before_any_work
    (input_folder output_file combined_analysis_file : string) (w : world) :
  split_files w = [] →
  let r := collate_and_analyze_json_files input_folder output_file
             combined_analysis_file w in
  r.1 = Returned ∧
  trace r.2 = trace w ++ [Logged (ERROR, "No JSON files found in the input folder.")] ∧
  listdir r.2 = listdir w ∧
  persisted r.2 = persisted w ∧
  dumps (trace r.2) = dumps (trace w) ∧
  workbooks (trace r.2) = workbooks (trace w).
Proof.
  intros He. cbv zeta. rewrite collate_without_files by done. simpl.
  split_and!; try done.
  - rewrite dumps_app. simpl. by rewrite app_nil_r.
  - unfold workbooks. rewrite omap_app. simpl. by rewrite app_nil_r.
Qed.

Lemma no_input_files_aborts_witness :
  (collate_and_analyze_json_files "./json_files" "combined.json"
     "combined_analysis.xlsx" (World [] None [])).1 = Returned.
Proof.
  apply (no_input_files_aborts_before_any_work "./json_files" "combined.json"
           "combined_analysis.xlsx" (World [] None [])).
  reflexivity.
Defined.

(** C8. When every ticket of the union is spam the validation raises one of
    its two errors, and so does the run.  The two errors are distinct; the
    first is raised exactly when the total differs from the sum of the
    program-area counts and the spam count, the second exactly when that check
    passes and the total equals the spam count, and the run returns normally
    exactly when both checks pass. *)
Theorem validator_rejects_all_spam
    (input_folder output_file combined_analysis_file : string)
    (stats : analysis_stats) (w : world) :
  0 < Stats.total_tickets stats →
  Stats.spam_ticket_count stats = Stats.total_tickets stats →
  let balanced :=
    Stats.total_tickets stats =
    sum_values (Stats.program_area_count stats) + Stats.spam_ticket_count stats in
  (∃ e, (validate stats w).1 = Raised e ∧
        (e = validation_1_failed ∨ e = validation_2_failed)) ∧
  validation_1_failed ≠ validation_2_failed ∧
  (∀ stats' w',
     let balanced' :=
       Stats.total_tickets stats' =
       sum_values (Stats.program_area_count stats') +
       Stats.spam_ticket_count stats' in
     let all_spam' := Stats.total_tickets stats' = Stats.spam_ticket_count stats' in
     ((validate stats' w').1 = Raised validation_1_failed ↔ ¬ balanced') ∧
     ((validate stats' w').1 = Raised validation_2_failed ↔ balanced' ∧ all_spam') ∧
     ((validate stats' w').1 = Returned ↔ balanced' ∧ ¬ all_spam')) ∧
  (∀ w0, split_files w0 ≠ [] → (analyze_data (union w0)).1 = stats →
         ∃ e, (collate_and_analyze_json_files input_folder output_file
                 combined_analysis_file w0).1 = Raised e ∧
              (e = validation_1_failed ∨ e = validation_2_failed)).
Proof.
  intros Hpos Hspam. cbv zeta.
  assert (∀ w', ∃ e, (validate stats w').1 = Raised e ∧
                     (e = validation_1_failed ∨ e = validation_2_failed)) as Hfail.
  { intros w'. rewrite validate_outcome. destruct (negb _); [by eauto|].
    rewrite Hspam, Nat.eqb_refl. by eauto. }
  split_and!.
  - apply Hfail.
  - discriminate.
  - intros stats' w'. rewrite validate_outcome.
    destruct (Nat.eqb_spec (Stats.total_tickets stats')
                (sum_values (Stats.program_area_count stats') +
                 Stats.spam_ticket_count stats')) as [Hb|Hb]; simpl.
    + destruct (Nat.eqb_spec (Stats.total_tickets stats')
                  (Stats.spam_ticket_count stats')) as [Hs|Hs];
        split_and!; split; try done; try (intros [? ?]; done); naive_solver.
    + split_and!; split; try done; try (intros [? ?]; done); naive_solver.
  - intros w0 Hne Hstats.
    pose proof (collate_effects input_folder output_file combined_analysis_file
                  w0 Hne) as (_ & _ & Ho).
    rewrite Ho, Hstats. apply Hfail.
Qed.

Definition all_spam_stats : analysis_stats :=
  Stats.Make 1 ∅ ∅ ∅ ∅ ∅ ∅ 1 ∅ ∅ ∅ ∅ ∅.

Lemma validator_rejects_all_spam_witness :
  ∃ e, (validate all_spam_stats (World [] None [])).1 = Raised e ∧
       (e = validation_1_failed ∨ e = validation_2_failed).
Proof.
  apply (validator_rejects_all_spam "./json_files" "combined.json"
           "combined_analysis.xlsx" all_spam_stats (World [] None [])).
  - simpl. lia.
  - reflexivity.
Defined.

(** The validation when the first check passes and the second fails. *)
Lemma validate_second_check stats w :
  Stats.total_tickets stats =
    sum_values (Stats.program_area_count stats) + Stats.spam_ticket_count stats →
  Stats.total_tickets stats = Stats.spam_ticket_count stats →
  (validate stats w).1 = Raised validation_2_failed ∧
  trace (validate stats w).2 =
    trace w ++
    [Logged (INFO, "Validation passed (1/2): Total tickets match the sum of program area tickets and spam tickets.");
     Logged (ERROR,
       "Validation failed (2/2): All tickets are considered spam (" +:+
       pretty (Stats.spam_ticket_count stats) +:+ " out of " +:+
       pretty (Stats.total_tickets stats) +:+ "). Something went wrong.")].
Proof.
  intros Hb Hs. unfold validate.
  apply Nat.eqb_eq in Hb. apply Nat.eqb_eq in Hs. rewrite Hb, Hs.
  cbn [negb fst snd]. unfold logging, emit. cbn [trace].
  by rewrite <- app_assoc.
Qed.

(** C9. When the folder holds input files and their union is empty, the first
    validation check passes and the second raises its error: the run ends
    with "All tickets are considered spam." *)
Theorem empty_union_fails_second_check
    (input_folder output_file combined_analysis_file : string) (w : world) :
  split_files w ≠ [] → union w = [] →
  let r := collate_and_analyze_json_files input_folder output_file
             combined_analysis_file w in
  Stats.total_tickets (analyze_data (union w)).1 = 0 ∧
  Stats.spam_ticket_count (analyze_data (union w)).1 = 0 ∧
  r.1 = Raised validation_2_failed ∧
  Logged (INFO, "Validation passed (1/2): Total tickets match the sum of program area tickets and spam tickets.")
    ∈ trace r.2 ∧
  last (trace r.2) =
    Some (Logged (ERROR, "Validation failed (2/2): All tickets are considered spam (0 out of 0). Something went wrong.")).
Proof.
  intros Hne Hu. cbv zeta. rewrite collate_with_files by done. cbv zeta.
  pose proof (loaded_spec input_folder w) as (Hd & _). rewrite Hd, Hu.
  set (wl := (loaded input_folder w).2).
  pose proof (analyze_spec [] (persist output_file [] wl)) as (Ha & _).
  rewrite Ha.
  set (stats := (analyze_data []).1).
  assert (Stats.total_tickets stats =
          sum_values (Stats.program_area_count stats) +
          Stats.spam_ticket_count stats) as Hb
    by (vm_compute; reflexivity).
  assert (Stats.total_tickets stats = Stats.spam_ticket_count stats) as Hs
    by reflexivity.
  set (wx := write_analysis_to_excel stats combined_analysis_file
               (analyze [] (persist output_file [] wl)).2).
  pose proof (validate_second_check stats wx Hb Hs) as (Ho & Ht).
  rewrite Ho, Ht. split_and!; try done.
  - apply elem_of_app. right. apply elem_of_cons. by left.
  - rewrite (last_app _ [_; _]). simpl. do 3 f_equal.
Qed.

Lemma empty_union_fails_second_check_witness :
  (collate_and_analyze_json_files "./json_files" "combined.json"
     "combined_analysis.xlsx"
     (World [("tickets.json", [Malformed "Expecting value"; Array []])] None [])).1
  = Raised validation_2_failed.
Proof.
  apply (empty_union_fails_second_check "./json_files" "combined.json"
           "combined_analysis.xlsx"
           (World [("tickets.json", [Malformed "Expecting value"; Array []])] None [])).
  - vm_compute. discriminate.
  - vm_compute. reflexivity.
Defined.

Lemma split_files_none w :
  Forall (λ f, endswith f.1 ".json" = false) (listdir w) → split_files w = [].
Proof.
  unfold split_files. induction 1 as [|f l Hf _ IH]; [done|].
  rewrite filter_cons, decide_False; [done | by rewrite Hf].
Qed.

(** C10. The merged data is that of the entries whose name ends in [.json];
    a run gives the same outcome, merged file and trace as the run over those
    entries alone.  When no name ends in [.json] the run is that over the
    empty folder: the error is logged and nothing else happens. *)
Theorem only_json_files_are_loaded
    (input_folder output_file combined_analysis_file : string) (w : world) :
  let run := collate_and_analyze_json_files input_folder output_file
               combined_analysis_file in
  (loaded input_folder w).1 = union w ∧
  (run w).1 = (run (relist (split_files w) w)).1 ∧
  persisted (run w).2 = persisted (run (relist (split_files w) w)).2 ∧
  trace (run w).2 = trace (run (relist (split_files w) w)).2 ∧
  (Forall (λ f, endswith f.1 ".json" = false) (listdir w) →
   (run w).1 = (run (relist [] w)).1 ∧
   persisted (run w).2 = persisted (run (relist [] w)).2 ∧
   trace (run w).2 = trace (run (relist [] w)).2 ∧
   (run w).1 = Returned ∧
   persisted (run w).2 = persisted w ∧
   trace (run w).2 =
     trace w ++ [Logged (ERROR, "No JSON files found in the input folder.")]).
Proof.
  cbv zeta.
  pose proof (collate_relist input_folder output_file combined_analysis_file w) as Hr.
  cbv zeta in Hr. rewrite Hr. split_and!; try done.
  - apply loaded_spec.
  - intros Hnone. apply split_files_none in Hnone.
    rewrite (collate_without_files _ _ _ w) by done.
    rewrite (collate_without_files _ _ _ (relist [] w)) by done.
    done.
Qed.

Lemma only_json_files_are_loaded_witness :
  (collate_and_analyze_json_files "./json_files" "combined.json"
     "combined_analysis.xlsx"
     (World [("notes.txt", [Object shadowed_ticket]); ("data.jsonl", [])] None [])).1
  = Returned.
Proof.
  apply (only_json_files_are_loaded "./json_files" "combined.json"
           "combined_analysis.xlsx"
           (World [("notes.txt", [Object shadowed_ticket]); ("data.jsonl", [])]
              None [])).
  repeat constructor.
Defined.
